(** * zap: deferred key-value fields ([field.go])

    A shallow embedding of package [zap]'s [Field] type, its constructors and
    its replay operation [Field.AddTo], followed by the properties of replay:
    which sink calls a field performs, how encoder failures are absorbed, how
    nested groups are replayed, and when replay panics.

    The constructors [Time] and [Stack] only wrap [Float64] and [String]
    around functions of other files.  [Time] takes its conversion of a
    timestamp to seconds as a parameter; [Stack], which captures a stack
    trace into a buffer of the encoder pool, is left out. *)

From Stdlib Require Import ZArith List String Ascii Bool Lia.
From Stdlib.Strings Require Import Byte.
Import ListNotations.

#[local] Open Scope string_scope.
#[local] Open Scope list_scope.
#[local] Open Scope Z_scope.

(** ** Machine integers

    Go's [int64] and [uint64] are 64-bit; [int] has the width of the platform.
    Values are kept in [Z] and every conversion writes its wrap-around out. *)

Definition wrap_unsigned (w x : Z) : Z := x mod 2 ^ w.

Definition wrap_signed (w x : Z) : Z :=
  (x + 2 ^ (w - 1)) mod 2 ^ w - 2 ^ (w - 1).

Definition in_unsigned (w x : Z) : Prop := 0 <= x < 2 ^ w.

Definition in_signed (w x : Z) : Prop := - 2 ^ (w - 1) <= x < 2 ^ (w - 1).

(** The width of Go's [int]: 32 or 64 bits. *)
Class Platform : Type := {
  intSize : Z;
  intSize_cases : intSize = 32 \/ intSize = 64
}.

(** The conversions [int64(x)], [uint64(x)] and [int(x)]. *)
Definition to_int64 (x : Z) : Z := wrap_signed 64 x.
Definition to_uint64 (x : Z) : Z := wrap_unsigned 64 x.
Definition to_int `{Platform} (x : Z) : Z := wrap_signed intSize x.

(** A [float64] is its IEEE-754 bit pattern, a 64-bit word:
    [math.Float64bits] and [math.Float64frombits] reinterpret the same 64
    bits and convert nothing. *)
Definition float64 : Type := Z.
Definition Float64bits (v : float64) : Z := v.
Definition Float64frombits (b : Z) : float64 := b.

(** ** Errors, fields and the values they refer to *)

(** Go's [error] interface has the single method [Error() string]; a
    non-nil error is modelled by the message that method returns, and a
    possibly nil [error] by [option error]. *)
Record error : Type := errorString { err_Error : string }.

(** [type fieldType int] with its [iota] constants. *)
Definition fieldType_t : Type := Z.

Definition unknownType : fieldType_t := 0.
Definition boolType : fieldType_t := 1.
Definition floatType : fieldType_t := 2.
Definition intType : fieldType_t := 3.
Definition int64Type : fieldType_t := 4.
Definition stringType : fieldType_t := 5.
Definition marshalerType : fieldType_t := 6.
Definition objectType : fieldType_t := 7.
Definition stringerType : fieldType_t := 8.
Definition skipType : fieldType_t := 9.

(** [Field] is the struct of the source.  Its [obj] slot is an
    [interface{}]: [Obj] lists the dynamic values it can hold.

    Modelled from the spec: the interfaces [LogMarshaler] and [fmt.Stringer]
    are declared outside [field.go].  A value implementing [fmt.Stringer] is
    represented by the string its [String] method returns at replay, and a
    user-defined [LogMarshaler] (a self-encoder, which writes its own fields
    into a sink and may report a failure) by the fields it writes and the
    error it returns. *)
Inductive Field : Type :=
  mkField (key : string) (fieldType : fieldType_t) (ival : Z) (str : string)
          (obj : Obj)
with Obj : Type :=
  | nilValue
  | marshalerValue (m : LogMarshaler)
  | stringerValue (s : string)
  | otherValue (repr : string)
with LogMarshaler : Type :=
  | multiFields (fs : list Field)
  | userMarshaler (fs : list Field) (err : option error).

Definition key (f : Field) : string := let 'mkField k _ _ _ _ := f in k.
Definition fieldType (f : Field) : fieldType_t :=
  let 'mkField _ t _ _ _ := f in t.
Definition ival (f : Field) : Z := let 'mkField _ _ i _ _ := f in i.
Definition str (f : Field) : string := let 'mkField _ _ _ s _ := f in s.
Definition obj (f : Field) : Obj := let 'mkField _ _ _ _ o := f in o.

(** ** Constructors *)

(** [Skip] constructs a no-op Field. *)
Definition Skip : Field := mkField "" skipType 0 "" nilValue.

(** [String] constructs a Field with the given key and value. *)
Definition String (key val : string) : Field :=
  mkField key stringType 0 val nilValue.

(** [Bool]: the payload slot holds 1 for [true] and keeps its zero value
    for [false]. *)
Definition Bool (key : string) (val : bool) : Field :=
  let ival := if val then 1 else 0 in
  mkField key boolType ival "" nilValue.

(** [Float64] stores [int64(math.Float64bits(val))]. *)
Definition Float64 (key : string) (val : float64) : Field :=
  mkField key floatType (to_int64 (Float64bits val)) "" nilValue.

(** [Int] stores [int64(val)]. *)
Definition Int (key : string) (val : Z) : Field :=
  mkField key intType (to_int64 val) "" nilValue.

Definition Int64 (key : string) (val : Z) : Field :=
  mkField key int64Type val "" nilValue.

(** [Stringer], [Marshaler] and [Object] keep a reference to the value; a
    nil interface argument is stored as the nil value. *)
Definition Stringer (key : string) (val : option string) : Field :=
  mkField key stringerType 0 ""
          (match val with Some s => stringerValue s | None => nilValue end).

Definition Marshaler (key : string) (val : option LogMarshaler) : Field :=
  mkField key marshalerType 0 ""
          (match val with Some m => marshalerValue m | None => nilValue end).

Definition Object (key : string) (val : Obj) : Field :=
  mkField key objectType 0 "" val.

(** [Duration] stores the number of nanoseconds, [int64(val)] of a
    [time.Duration], itself an [int64]. *)
Definition Duration (key : string) (val : Z) : Field := Int64 key (to_int64 val).

(** [Error]: a nil error gives the no-op field, any other one a string
    field under the key ["error"]. *)
Definition Error (err : option error) : Field :=
  match err with
  | None => Skip
  | Some e => String "error" (err_Error e)
  end.

(** [Nest] wraps the fields as a [multiFields] marshaler. *)
Definition Nest (key : string) (fields : list Field) : Field :=
  mkField key marshalerType 0 "" (marshalerValue (multiFields fields)).

(** ** Standard base64

    [base64.StdEncoding.EncodeToString] of Go's standard library: the
    alphabet of RFC 4648 with [=] padding, three bytes to four characters. *)
Module base64.

Definition encodeStd : string :=
  "ABCDEFGHIJKLMNOPQRSTUVWXYZabcdefghijklmnopqrstuvwxyz0123456789+/".

Definition StdPadding : ascii := "="%char.

(** [enc.encode[i]] *)
Definition encode (i : Z) : ascii :=
  nth (Z.to_nat i) (list_ascii_of_string encodeStd) StdPadding.

Definition uint (b : byte) : Z := Z.of_N (Byte.to_N b).

(** One full group: [val := src[0]<<16 | src[1]<<8 | src[2]] and its four
    6-bit digits. *)
Definition quantum (a b c : byte) : list ascii :=
  let val := Z.lor (Z.lor (Z.shiftl (uint a) 16) (Z.shiftl (uint b) 8)) (uint c) in
  [ encode (Z.land (Z.shiftr val 18) 63);
    encode (Z.land (Z.shiftr val 12) 63);
    encode (Z.land (Z.shiftr val 6) 63);
    encode (Z.land val 63) ].

(** The characters of the encoding; the last two cases are the remainder of
    one or two bytes, padded. *)
Fixpoint Encode (src : list byte) : list ascii :=
  match src with
  | a :: b :: c :: rest => quantum a b c ++ Encode rest
  | [a; b] =>
      let val := Z.lor (Z.shiftl (uint a) 16) (Z.shiftl (uint b) 8) in
      [ encode (Z.land (Z.shiftr val 18) 63);
        encode (Z.land (Z.shiftr val 12) 63);
        encode (Z.land (Z.shiftr val 6) 63);
        StdPadding ]
  | [a] =>
      let val := Z.shiftl (uint a) 16 in
      [ encode (Z.land (Z.shiftr val 18) 63);
        encode (Z.land (Z.shiftr val 12) 63);
        StdPadding;
        StdPadding ]
  | [] => []
  end.

Definition EncodeToString (src : list byte) : string :=
  string_of_list_ascii (Encode src).

End base64.

(** [Base64] encodes at construction and stores the text as a string
    field. *)
Definition Base64 (key : string) (val : list byte) : Field :=
  String key (base64.EncodeToString val).

(** ** Sinks and the replay monad

    A sink is a value mutated by its methods: a method takes the sink's
    state and gives the next one.  A Go call either returns or panics, and
    what it wrote before panicking stays written, so both outcomes carry the
    state. *)

Inductive PanicValue : Type :=
  | unknownFieldTypePanic (f : Field)
  | typeAssertionPanic (o : Obj) (iface : string).

Inductive Outcome (S A : Type) : Type :=
  | Returned (s : S) (a : A)
  | Panicked (s : S) (p : PanicValue).

Arguments Returned {S A} s a.
Arguments Panicked {S A} s p.

Definition M (S A : Type) : Type := S -> Outcome S A.

Definition ret {S A} (a : A) : M S A := fun s => Returned s a.

Definition bind {S A B} (m : M S A) (k : A -> M S B) : M S B :=
  fun s =>
    match m s with
    | Returned s' a => k a s'
    | Panicked s' p => Panicked s' p
    end.

Definition panic {S A} (p : PanicValue) : M S A := fun s => Panicked s p.

(** A sink method without result. *)
Definition write {S} (op : S -> S) : M S unit := fun s => Returned (op s) tt.

Declare Scope replay_scope.
Delimit Scope replay_scope with replay.
Notation "x <- m ;; k" := (bind m (fun x => k))
  (at level 61, m at next level, right associativity) : replay_scope.
Notation "m ;; k" := (bind m (fun _ => k))
  (at level 61, right associativity) : replay_scope.
#[local] Open Scope replay_scope.

Definition state_of {S A} (o : Outcome S A) : S :=
  match o with
  | Returned s _ => s
  | Panicked s _ => s
  end.

Definition returned {S A} (o : Outcome S A) : bool :=
  match o with
  | Returned _ _ => true
  | Panicked _ _ => false
  end.

(** Modelled from the spec: the [KeyValue] interface, declared outside
    [field.go].  Five unconditional writes, and [AddMarshaler] and
    [AddObject], which report an error (and, calling back into user code,
    may panic). *)
Class KeyValue (S : Type) : Type := {
  AddBool : string -> bool -> S -> S;
  AddFloat64 : string -> float64 -> S -> S;
  AddInt : string -> Z -> S -> S;
  AddInt64 : string -> Z -> S -> S;
  AddMarshaler : string -> LogMarshaler -> M S (option error);
  AddObject : string -> Obj -> M S (option error);
  AddString : string -> string -> S -> S
}.

Section Replay.

Context `{Platform} {S : Type} `{KeyValue S}.

(** [Field.AddTo]: the [switch] assigns [err] in the marshaler and object
    cases only, and a non-nil [err] is written as an extra string field. *)
Definition AddTo (f : Field) : M S unit :=
  err <- (if fieldType f =? boolType then
            write (AddBool (key f) (ival f =? 1)) ;; ret None
          else if fieldType f =? floatType then
            write (AddFloat64 (key f) (Float64frombits (to_uint64 (ival f)))) ;;
            ret None
          else if fieldType f =? intType then
            write (AddInt (key f) (to_int (ival f))) ;; ret None
          else if fieldType f =? int64Type then
            write (AddInt64 (key f) (ival f)) ;; ret None
          else if fieldType f =? stringType then
            write (AddString (key f) (str f)) ;; ret None
          else if fieldType f =? stringerType then
            match obj f with
            | stringerValue s => write (AddString (key f) s) ;; ret None
            | o => panic (typeAssertionPanic o "fmt.Stringer")
            end
          else if fieldType f =? marshalerType then
            match obj f with
            | marshalerValue m => AddMarshaler (key f) m
            | o => panic (typeAssertionPanic o "zap.LogMarshaler")
            end
          else if fieldType f =? objectType then
            AddObject (key f) (obj f)
          else if fieldType f =? skipType then
            ret None
          else
            panic (unknownFieldTypePanic f)) ;;
  match err with
  | Some e => write (AddString (String.append (key f) "Error") (err_Error e))
  | None => ret tt
  end.

(** [addFields]: the [range] loop. *)
Fixpoint addFields (fields : list Field) : M S unit :=
  match fields with
  | [] => ret tt
  | f :: rest => AddTo f ;; addFields rest
  end.

(** [MarshalLog], dispatched on the dynamic type of the marshaler.
    [multiFields.MarshalLog] is the source's; the user-defined case is the
    self-encoder of the spec, see [LogMarshaler]. *)
Definition MarshalLog (m : LogMarshaler) : M S (option error) :=
  match m with
  | multiFields fs => addFields fs ;; ret None
  | userMarshaler fs err => addFields fs ;; ret err
  end.

End Replay.

(** ** Three sinks *)

(** The calls a sink receives. *)
Inductive Call : Type :=
  | AddBoolCall (k : string) (v : bool)
  | AddFloat64Call (k : string) (v : float64)
  | AddIntCall (k : string) (v : Z)
  | AddInt64Call (k : string) (v : Z)
  | AddMarshalerCall (k : string) (m : LogMarshaler)
  | AddObjectCall (k : string) (o : Obj)
  | AddStringCall (k : string) (v : string).

(** [Spy] wraps any sink and appends each call it receives to a list before
    passing it on: the list holds exactly the calls made on the wrapper, in
    order. *)
#[export] Instance Spy {S : Type} `{KeyValue S} : KeyValue (S * list Call) := {
  AddBool k v '(s, tr) := (AddBool k v s, tr ++ [AddBoolCall k v]);
  AddFloat64 k v '(s, tr) := (AddFloat64 k v s, tr ++ [AddFloat64Call k v]);
  AddInt k v '(s, tr) := (AddInt k v s, tr ++ [AddIntCall k v]);
  AddInt64 k v '(s, tr) := (AddInt64 k v s, tr ++ [AddInt64Call k v]);
  AddMarshaler k m '(s, tr) :=
    match AddMarshaler k m s with
    | Returned s' e => Returned (s', tr ++ [AddMarshalerCall k m]) e
    | Panicked s' p => Panicked (s', tr ++ [AddMarshalerCall k m]) p
    end;
  AddObject k o '(s, tr) :=
    match AddObject k o s with
    | Returned s' e => Returned (s', tr ++ [AddObjectCall k o]) e
    | Panicked s' p => Panicked (s', tr ++ [AddObjectCall k o]) p
    end;
  AddString k v '(s, tr) := (AddString k v s, tr ++ [AddStringCall k v])
}.

(** What a recording sink has written: the typed writes, and the opening
    and closing of the sub-scope of a marshaler. *)
Inductive Event : Type :=
  | BoolEvent (k : string) (v : bool)
  | Float64Event (k : string) (v : float64)
  | IntEvent (k : string) (v : Z)
  | Int64Event (k : string) (v : Z)
  | StringEvent (k : string) (v : string)
  | ObjectEvent (k : string) (o : Obj)
  | OpenEvent (k : string)
  | CloseEvent (k : string).

Section Sinks.

Context `{Platform}.

(** Modelled from the spec: the sink's [addMarshaler] "invokes the
    marshalable's self-describing-encode routine against the same sink",
    inside a sub-scope keyed by the field's key which it opens before and
    closes after, and hands back the error of the routine.  The sinks of
    the repository are outside [field.go]; [Recorder] is such a sink that
    keeps the list of what was written.  The recursion is on the marshaler:
    replaying its fields reaches only the marshalers they hold. *)
Fixpoint recordMarshaler (m : LogMarshaler) (k : string) (log : list Event)
  {struct m} : Outcome (list Event) (option error) :=
  let self : KeyValue (list Event) := {|
    AddBool k v log := log ++ [BoolEvent k v];
    AddFloat64 k v log := log ++ [Float64Event k v];
    AddInt k v log := log ++ [IntEvent k v];
    AddInt64 k v log := log ++ [Int64Event k v];
    AddMarshaler k' m' := recordMarshaler m' k';
    AddObject k o log := Returned (log ++ [ObjectEvent k o]) None;
    AddString k v log := log ++ [StringEvent k v] |} in
  match MarshalLog (H0 := self) m (log ++ [OpenEvent k]) with
  | Returned log' e => Returned (log' ++ [CloseEvent k]) e
  | Panicked log' p => Panicked log' p
  end.

#[export] Instance Recorder : KeyValue (list Event) := {|
  AddBool k v log := log ++ [BoolEvent k v];
  AddFloat64 k v log := log ++ [Float64Event k v];
  AddInt k v log := log ++ [IntEvent k v];
  AddInt64 k v log := log ++ [Int64Event k v];
  AddMarshaler k m := recordMarshaler m k;
  AddObject k o log := Returned (log ++ [ObjectEvent k o]) None;
  AddString k v log := log ++ [StringEvent k v] |}.

(** Modelled from the spec: the contract of [addMarshaler] above, for any
    sink. *)
Class Scoped (S : Type) `{KeyValue S} : Type := {
  openScope : string -> S -> S;
  closeScope : string -> S -> S;
  AddMarshaler_scoped : forall k m s,
    AddMarshaler k m s =
    match MarshalLog m (openScope k s) with
    | Returned s' e => Returned (closeScope k s') e
    | Panicked s' p => Panicked s' p
    end
}.

(** A sink whose encoders always fail: [AddMarshaler] and [AddObject] write
    nothing and report [refusal]; it counts the unconditional writes. *)
Definition refusal : error := errorString "unsupported value".

#[export] Instance Rejecting : KeyValue nat := {|
  AddBool _ _ n := Datatypes.S n;
  AddFloat64 _ _ n := Datatypes.S n;
  AddInt _ _ n := Datatypes.S n;
  AddInt64 _ _ n := Datatypes.S n;
  AddMarshaler _ _ n := Returned n (Some refusal);
  AddObject _ _ n := Returned n (Some refusal);
  AddString _ _ n := Datatypes.S n |}.

End Sinks.

(** ** What replay should write

    Following the spec's words rather than the code: a scalar field is one
    typed write, a stringer one string write, a no-op nothing; a marshaler
    opens the sub-scope of its key, replays its inner fields in their order
    and closes the sub-scope, a failure it reports becoming the string field
    [<key>Error]; an object is handed to the sink's reflective encoder. *)
Section Expected.

Context `{Platform}.

Fixpoint replayEvents (f : Field) : list Event :=
  match f with
  | mkField k t i s o =>
      if t =? boolType then [BoolEvent k (i =? 1)]
      else if t =? floatType then [Float64Event k (to_uint64 i)]
      else if t =? intType then [IntEvent k (to_int i)]
      else if t =? int64Type then [Int64Event k i]
      else if t =? stringType then [StringEvent k s]
      else if t =? stringerType then
        match o with
        | stringerValue v => [StringEvent k v]
        | _ => []
        end
      else if t =? marshalerType then
        match o with
        | marshalerValue (multiFields fs) =>
            OpenEvent k :: flat_map replayEvents fs ++ [CloseEvent k]
        | marshalerValue (userMarshaler fs err) =>
            OpenEvent k :: flat_map replayEvents fs ++ [CloseEvent k] ++
            match err with
            | Some e => [StringEvent (String.append k "Error") (err_Error e)]
            | None => []
            end
        | _ => []
        end
      else if t =? objectType then [ObjectEvent k o]
      else []
  end.

End Expected.

(** The fields whose replay cannot panic: the kind is one [AddTo] knows, a
    stringer or marshaler payload implements its interface, and so for the
    fields inside a marshaler. *)
Fixpoint panicFree (f : Field) : bool :=
  match f with
  | mkField k t i s o =>
      if t =? stringerType then
        match o with stringerValue _ => true | _ => false end
      else if t =? marshalerType then
        match o with
        | marshalerValue (multiFields fs) => forallb panicFree fs
        | marshalerValue (userMarshaler fs _) => forallb panicFree fs
        | _ => false
        end
      else (boolType <=? t) && (t <=? skipType)
  end.

(** The zero value [Field{}]. *)
Definition zeroField : Field := mkField "" 0 0 "" nilValue.

(** The two platforms. *)
Definition amd64 : Platform := {| intSize := 64; intSize_cases := or_intror eq_refl |}.
Definition i386 : Platform := {| intSize := 32; intSize_cases := or_introl eq_refl |}.

(** ** Kinds *)

(** The kinds [AddTo] has a case for. *)
Definition knownKind (t : fieldType_t) : bool := (boolType <=? t) && (t <=? skipType).

(** The scalar kinds, and the no-op kind. *)
Definition scalarKind (t : fieldType_t) : bool :=
  (t =? boolType) || (t =? floatType) || (t =? intType) || (t =? int64Type)
  || (t =? stringType) || (t =? skipType).

(** The calls a field of a scalar kind makes, read off its slots. *)
Definition scalarCalls `{Platform} (f : Field) : list Call :=
  if fieldType f =? boolType then [AddBoolCall (key f) (ival f =? 1)]
  else if fieldType f =? floatType then
    [AddFloat64Call (key f) (Float64frombits (to_uint64 (ival f)))]
  else if fieldType f =? intType then [AddIntCall (key f) (to_int (ival f))]
  else if fieldType f =? int64Type then [AddInt64Call (key f) (ival f)]
  else if fieldType f =? stringType then [AddStringCall (key f) (str f)]
  else [].

(** The fields a value holds when it is a marshaler. *)
Definition innerFields (o : Obj) : list Field :=
  match o with
  | marshalerValue (multiFields fs) => fs
  | marshalerValue (userMarshaler fs _) => fs
  | _ => []
  end.

(** ** Special values of [float64], as bit patterns *)

Definition positiveZero : float64 := 0.
Definition negativeZero : float64 := 0x8000000000000000.
Definition positiveInfinity : float64 := 0x7FF0000000000000.
Definition negativeInfinity : float64 := 0xFFF0000000000000.
Definition quietNaN : float64 := 0x7FF8000000000001.

(** ** Sample fields *)

(** A group with a forged field in front of a well-built one. *)
Definition forgedGroup : list Field := [zeroField; Int "status" 200].

(** A user-defined marshaler that writes one field and fails. *)
Definition failingUser : LogMarshaler :=
  userMarshaler [String "name" "x"] (Some (errorString "no access")).

(** The group of the spec's example, and a group inside a group. *)
Definition reqFields : list Field := [Int "status" 200; String "method" "GET"].

Definition deepFields : list Field :=
  [Nest "inner" [Bool "ok" true; Nest "innermost" []];
   Marshaler "user" (Some failingUser)].


(** ** The remaining constructor, and predicates on fields and calls *)

(** [Time] stores, as a float64 field, the seconds since the epoch of a
    [time.Time].  The conversion [timeToSeconds] is a function of another
    file of the package and is a parameter here, with the type of
    timestamps. *)
Section TimeField.

Variable time_Time : Type.
Variable timeToSeconds : time_Time -> float64.

Definition Time (key : string) (val : time_Time) : Field :=
  Float64 key (timeToSeconds val).

End TimeField.

(** The key a sink call is made with. *)
Definition callKey (c : Call) : string :=
  match c with
  | AddBoolCall k _ => k
  | AddFloat64Call k _ => k
  | AddIntCall k _ => k
  | AddInt64Call k _ => k
  | AddMarshalerCall k _ => k
  | AddObjectCall k _ => k
  | AddStringCall k _ => k
  end.

(** The interface [AddTo] asserts of the payload of a stringer or
    marshaler field, and whether the payload implements it. *)
Definition assertedInterface (f : Field) : string :=
  if fieldType f =? stringerType then "fmt.Stringer" else "zap.LogMarshaler".

Definition assertionFails (f : Field) : bool :=
  if fieldType f =? stringerType then
    match obj f with stringerValue _ => false | _ => true end
  else if fieldType f =? marshalerType then
    match obj f with marshalerValue _ => false | _ => true end
  else false.

(** The fields that are not of the skip kind. *)
Definition nonSkip (f : Field) : bool := negb (fieldType f =? skipType).

(** The fields the constructors of the package build from values that are
    not the nil interface, groups and user-defined marshalers holding such
    fields only. *)
#[warnings="-register-all"]
Inductive Constructed : Field -> Prop :=
  | Constructed_Skip : Constructed Skip
  | Constructed_Base64 k bs : Constructed (Base64 k bs)
  | Constructed_Bool k b : Constructed (Bool k b)
  | Constructed_Float64 k v : Constructed (Float64 k v)
  | Constructed_Int k n : Constructed (Int k n)
  | Constructed_Int64 k n : Constructed (Int64 k n)
  | Constructed_String k v : Constructed (String k v)
  | Constructed_Stringer k v : Constructed (Stringer k (Some v))
  | Constructed_Duration k d : Constructed (Duration k d)
  | Constructed_Error e : Constructed (Error e)
  | Constructed_Object k o : Constructed (Object k o)
  | Constructed_Marshaler k fs err :
      Forall Constructed fs ->
      Constructed (Marshaler k (Some (userMarshaler fs err)))
  | Constructed_Nest k fs :
      Forall Constructed fs -> Constructed (Nest k fs).

(** A sink whose reflective encoder never panics. *)
Definition encoderReturns {S : Type} `{KeyValue S} : Prop :=
  forall (k : string) (o : Obj) (s : S), returned (AddObject k o s) = true.

(** ** Reading base64 text back

    The inverse of the encoder, to state that the text of a [Base64] field
    loses nothing: the value of a character in the alphabet, and the bytes
    (as numbers) of a padded text, four characters at a time. *)

Definition sextet (c : ascii) : Z :=
  (fix find (l : list ascii) (i : Z) : Z :=
     match l with
     | [] => 0
     | x :: l' => if Ascii.eqb x c then i else find l' (i + 1)
     end) (list_ascii_of_string base64.encodeStd) 0.

Definition isPadding (c : ascii) : bool := Ascii.eqb c base64.StdPadding.

Fixpoint DecodeText (txt : list ascii) : list Z :=
  match txt with
  | c1 :: c2 :: c3 :: c4 :: rest =>
      let v := sextet c1 * 262144 + sextet c2 * 4096 + sextet c3 * 64 + sextet c4 in
      if isPadding c3 then [v / 65536 mod 256]
      else if isPadding c4 then [v / 65536 mod 256; v / 256 mod 256]
      else v / 65536 mod 256 :: v / 256 mod 256 :: v mod 256 :: DecodeText rest
  | _ => []
  end.

(** ** The encoder on the test vectors of RFC 4648 *)

Example base64_rfc_vectors :
  base64.EncodeToString [x66] = "Zg==" /\
  base64.EncodeToString [x66; x6f] = "Zm8=" /\
  base64.EncodeToString [x66; x6f; x6f] = "Zm9v" /\
  base64.EncodeToString [x66; x6f; x6f; x62; x61; x72] = "Zm9vYmFy" /\
  base64.EncodeToString [xfb; xff; xbe] = "+/++".
Proof. repeat split; vm_compute; reflexivity. Qed.

(** The encoding is padded: every group of up to three bytes gives four
    characters. *)
Lemma bytes_ind3 (P : list byte -> Prop) :
  P [] -> (forall a, P [a]) -> (forall a b, P [a; b]) ->
  (forall a b c rest, P rest -> P (a :: b :: c :: rest)) ->
  forall src, P src.
Proof.
  intros H0 H1 H2 H3. fix IH 1.
  intros [| a [| b [| c rest]]];
    [exact H0 | apply H1 | apply H2 | apply H3, IH].
Qed.

Lemma Encode_length (src : list byte) :
  List.length (base64.Encode src) = (4 * ((List.length src + 2) / 3))%nat.
Proof.
  induction src as [| a | a b | a b c rest IH] using bytes_ind3;
    try reflexivity.
  change (base64.Encode (a :: b :: c :: rest))
    with (base64.quantum a b c ++ base64.Encode rest).
  rewrite length_app, IH. cbn [List.length base64.quantum].
  replace (Datatypes.S (Datatypes.S (Datatypes.S (List.length rest))) + 2)%nat
    with (List.length rest + 2 + 1 * 3)%nat by lia.
  rewrite Nat.div_add by discriminate. lia.
Qed.

(** ** Integer conversions *)

Lemma to_uint64_to_int64 (v : Z) :
  in_unsigned 64 v -> to_uint64 (to_int64 v) = v.
Proof.
  unfold in_unsigned, to_uint64, to_int64, wrap_unsigned, wrap_signed.
  change (64 - 1) with 63.
  change (2 ^ 64) with 18446744073709551616.
  change (2 ^ 63) with 9223372036854775808.
  intros Hv. Z.div_mod_to_equations. lia.
Qed.

Lemma wrap_signed_id (w x : Z) :
  0 < w -> in_signed w x -> wrap_signed w x = x.
Proof.
  unfold in_signed, wrap_signed. intros Hw Hx.
  replace (2 ^ w) with (2 * 2 ^ (w - 1)).
  - rewrite Z.mod_small; lia.
  - rewrite <- Z.pow_succ_r by lia. f_equal. lia.
Qed.

Lemma in_signed_mono (w w' x : Z) :
  0 < w <= w' -> in_signed w x -> in_signed w' x.
Proof.
  unfold in_signed. intros Hw Hx.
  assert (2 ^ (w - 1) <= 2 ^ (w' - 1)) by (apply Z.pow_le_mono_r; lia).
  lia.
Qed.

Lemma intSize_bounds `{Platform} : 0 < intSize <= 64.
Proof. destruct intSize_cases as [E | E]; rewrite E; lia. Qed.

(** [int(int64(n))] is [n] for every [n] of the platform's [int]. *)
Lemma to_int_to_int64 `{Platform} (n : Z) :
  in_signed intSize n -> to_int (to_int64 n) = n.
Proof.
  intros Hn. pose proof intSize_bounds as Hb.
  unfold to_int, to_int64.
  rewrite (wrap_signed_id 64) by (try lia; apply (in_signed_mono intSize); auto).
  apply wrap_signed_id; [lia | assumption].
Qed.

(** ** Replay of the scalar constructors *)

Section Scalars.

Context `{Platform} {S : Type} `{KeyValue S}.

(** Runs [AddTo] on a field whose kind is a known constant. *)
Ltac run_AddTo := unfold AddTo, bind, write, ret, panic; cbn.

Lemma AddTo_Bool (key : string) (b : bool) (s : S) (tr : list Call) :
  AddTo (Bool key b) (s, tr) = Returned (AddBool key b s, tr ++ [AddBoolCall key b]) tt.
Proof. destruct b; reflexivity. Qed.

Lemma AddTo_Int64 (key : string) (m : Z) (s : S) (tr : list Call) :
  AddTo (Int64 key m) (s, tr) = Returned (AddInt64 key m s, tr ++ [AddInt64Call key m]) tt.
Proof. reflexivity. Qed.

Lemma AddTo_Int (key : string) (n : Z) (s : S) (tr : list Call) :
  in_signed intSize n ->
  AddTo (Int key n) (s, tr) = Returned (AddInt key n s, tr ++ [AddIntCall key n]) tt.
Proof.
  intros Hn. run_AddTo. rewrite (to_int_to_int64 n Hn). reflexivity.
Qed.

Lemma AddTo_String (key val : string) (s : S) (tr : list Call) :
  AddTo (String key val) (s, tr) =
  Returned (AddString key val s, tr ++ [AddStringCall key val]) tt.
Proof. reflexivity. Qed.

Lemma AddTo_Skip (s : S) (tr : list Call) :
  AddTo Skip (s, tr) = Returned (s, tr) tt.
Proof. reflexivity. Qed.

End Scalars.

Lemma scalarKind_cases (t : fieldType_t) :
  scalarKind t = true ->
  t = boolType \/ t = floatType \/ t = intType \/ t = int64Type \/
  t = stringType \/ t = skipType.
Proof.
  unfold scalarKind. rewrite !orb_true_iff, !Z.eqb_eq. tauto.
Qed.

Lemma AddTo_scalar `{Platform} {S : Type} `{KeyValue S} (f : Field) (s : S)
  (tr : list Call) :
  scalarKind (fieldType f) = true ->
  exists s', AddTo f (s, tr) = Returned (s', tr ++ scalarCalls f) tt.
Proof.
  intros Hk. apply scalarKind_cases in Hk.
  destruct f as [k t i st o]. cbn in Hk.
  unfold AddTo, scalarCalls, bind, write, ret. cbn [fieldType key ival str obj].
  destruct Hk as [-> | [-> | [-> | [-> | [-> | ->]]]]]; cbn;
    try (eexists; reflexivity).
  exists s. rewrite app_nil_r. reflexivity.
Qed.

Ltac unfold_kinds :=
  unfold unknownType, boolType, floatType, intType, int64Type, stringType,
    marshalerType, objectType, stringerType, skipType in *.

Lemma AddTo_unknown `{Platform} {S : Type} `{KeyValue S} (f : Field) (s : S) :
  knownKind (fieldType f) = false ->
  AddTo f s = Panicked s (unknownFieldTypePanic f).
Proof.
  unfold knownKind. intros Hk.
  apply andb_false_iff in Hk. rewrite !Z.leb_gt in Hk.
  unfold AddTo, bind. unfold_kinds.
  repeat match goal with
         | |- context [fieldType f =? ?c] =>
             destruct (Z.eqb_spec (fieldType f) c) as [E | _]; [lia | ]
         end.
  reflexivity.
Qed.

(** ** Induction on fields, through the fields of their marshalers *)

Section Field_nested_ind.

Variable P : Field -> Prop.

Hypothesis step : forall k t i s o,
  Forall P (innerFields o) -> P (mkField k t i s o).

Fixpoint Field_nested_ind (f : Field) : P f :=
  match f with
  | mkField k t i s o =>
      let all := fix all (l : list Field) : Forall P l :=
        match l with
        | [] => Forall_nil P
        | x :: l' => Forall_cons x (Field_nested_ind x) (all l')
        end in
      step k t i s o
        (match o as o' return Forall P (innerFields o') with
         | marshalerValue (multiFields fs) => all fs
         | marshalerValue (userMarshaler fs _) => all fs
         | _ => Forall_nil P
         end)
  end.

End Field_nested_ind.

(** ** The loop and the marshalers, on any sink *)

Section Loop.

Context `{Platform} {S : Type} `{KeyValue S}.

Lemma addFields_app (fs gs : list Field) (s : S) :
  addFields (fs ++ gs) s =
  match addFields fs s with
  | Returned s' _ => addFields gs s'
  | Panicked s' p => Panicked s' p
  end.
Proof.
  revert s. induction fs as [| f fs IH]; intros s; cbn; [reflexivity | ].
  unfold bind. destruct (AddTo f s) as [s' [] | s' p]; [apply IH | reflexivity].
Qed.

(** When the loop returns it has run [AddTo] on every field, first to last,
    each on the state the one before left. *)
Lemma addFields_returned (fs : list Field) (s s' : S) :
  addFields fs s = Returned s' tt ->
  s' = fold_left (fun st f => state_of (AddTo f st)) fs s /\
  forall pre f post, fs = pre ++ f :: post ->
    returned (AddTo f (fold_left (fun st g => state_of (AddTo g st)) pre s)) = true.
Proof.
  revert s. induction fs as [| f fs IH]; intros s; cbn.
  - intros [= <-]. split; [reflexivity | ].
    intros [| ? ?] ? ? E; discriminate E.
  - unfold bind. destruct (AddTo f s) as [s1 [] | s1 p] eqn:E1; [ | discriminate].
    intros Hrest. destruct (IH _ Hrest) as [-> Hall]. split; [reflexivity | ].
    intros [| g pre] f' post E; injection E as <- ->; cbn.
    + rewrite E1. reflexivity.
    + rewrite E1. cbn. eapply Hall. reflexivity.
Qed.

(** The loop panics exactly at its first field that does, with the fields
    after it untouched. *)
Lemma addFields_panicked (pre post : list Field) (f : Field) (s s1 s2 : S)
  (p : PanicValue) :
  addFields pre s = Returned s1 tt ->
  AddTo f s1 = Panicked s2 p ->
  addFields (pre ++ f :: post) s = Panicked s2 p.
Proof.
  intros Hpre Hf. rewrite addFields_app, Hpre. cbn. unfold bind.
  rewrite Hf. reflexivity.
Qed.

(** [multiFields.MarshalLog] hands back [nil] when the loop returns, and
    nothing when it panics. *)
Lemma MarshalLog_multiFields (fs : list Field) (s : S) :
  MarshalLog (multiFields fs) s =
  match addFields fs s with
  | Returned s' _ => Returned s' None
  | Panicked s' p => Panicked s' p
  end.
Proof. reflexivity. Qed.

End Loop.

(** ** The recording sink *)

Section RecorderFacts.

Context `{Platform}.

Lemma recordMarshaler_eq (m : LogMarshaler) (k : string) (log : list Event) :
  recordMarshaler m k log =
  match MarshalLog m (log ++ [OpenEvent k]) with
  | Returned log' e => Returned (log' ++ [CloseEvent k]) e
  | Panicked log' p => Panicked log' p
  end.
Proof. destruct m; reflexivity. Qed.

#[export] Instance Recorder_Scoped : Scoped (list Event) := {|
  openScope k log := log ++ [OpenEvent k];
  closeScope k log := log ++ [CloseEvent k];
  AddMarshaler_scoped k m log := recordMarshaler_eq m k log |}.

Lemma Recorder_addFields (fs : list Field) :
  Forall (fun f => forall log, AddTo f log = Returned (log ++ replayEvents f) tt) fs ->
  forall log, addFields fs log = Returned (log ++ flat_map replayEvents fs) tt.
Proof.
  induction 1 as [| f fs Hf _ IH]; intros log; cbn.
  - rewrite app_nil_r. reflexivity.
  - unfold bind. rewrite Hf, IH, app_assoc. reflexivity.
Qed.

Lemma forallb_Forall_impl (P : Field -> Prop) (fs : list Field) :
  Forall (fun f => panicFree f = true -> P f) fs ->
  forallb panicFree fs = true -> Forall P fs.
Proof.
  induction 1 as [| f fs Hf _ IH]; cbn; intros Hall; constructor;
    apply andb_true_iff in Hall; destruct Hall; auto.
Qed.

(** On the recording sink a panic-free field returns, having written what
    the spec says it should. *)
Lemma Recorder_AddTo (f : Field) :
  panicFree f = true ->
  forall log, AddTo f log = Returned (log ++ replayEvents f) tt.
Proof.
  induction f as [k t i s o IH] using Field_nested_ind.
  intros Hpf log. cbn in Hpf.
  unfold AddTo, bind, write, ret. cbn [fieldType key ival str obj replayEvents].
  destruct (t =? boolType) eqn:Eb; [reflexivity | ].
  destruct (t =? floatType) eqn:Efl; [reflexivity | ].
  destruct (t =? intType) eqn:Ei; [reflexivity | ].
  destruct (t =? int64Type) eqn:Ei64; [reflexivity | ].
  destruct (t =? stringType) eqn:Es; [reflexivity | ].
  destruct (t =? stringerType) eqn:Est.
  { destruct o; try discriminate Hpf. reflexivity. }
  destruct (t =? marshalerType) eqn:Em.
  { destruct o as [ | [fs | fs err] | | ]; try discriminate Hpf; cbn in IH;
      cbn [AddMarshaler Recorder]; rewrite recordMarshaler_eq; cbn [MarshalLog];
      unfold bind, ret;
      rewrite (Recorder_addFields fs (forallb_Forall_impl _ fs IH Hpf)).
    - rewrite <- !app_assoc. reflexivity.
    - destruct err as [e | ]; cbn; unfold write; rewrite <- !app_assoc; reflexivity. }
  destruct (t =? objectType) eqn:Eo; [reflexivity | ].
  destruct (t =? skipType) eqn:Esk; [rewrite app_nil_r; reflexivity | ].
  apply andb_true_iff in Hpf. rewrite Z.leb_le, Z.leb_le in Hpf.
  rewrite Z.eqb_neq in *. unfold_kinds. lia.
Qed.

End RecorderFacts.

(** ** Replay on any sink *)

Section ReplayProperties.

Context `{Platform} {S : Type} `{KeyValue S}.

(** C1: when the sink's [AddMarshaler] (for a field of marshaler kind,
    called with the field's key and its marshaler) or [AddObject] (for a
    field of object kind, called with the field's key and its object)
    returns a non-nil error [E], [AddTo] returns normally, and after that
    call it makes exactly one more: [AddString] with the key suffixed by
    ["Error"] and the message of [E]. *)
Theorem AddTo_absorbs_encoder_error (k : string) (i : Z) (st : string)
  (E : error) (s s' : S) (tr : list Call) :
  (forall m : LogMarshaler,
     AddMarshaler k m s = Returned s' (Some E) ->
     AddTo (mkField k marshalerType i st (marshalerValue m)) (s, tr) =
     Returned (AddString (String.append k "Error") (err_Error E) s',
               tr ++ [AddMarshalerCall k m;
                      AddStringCall (String.append k "Error") (err_Error E)]) tt)
  /\
  (forall o : Obj,
     AddObject k o s = Returned s' (Some E) ->
     AddTo (mkField k objectType i st o) (s, tr) =
     Returned (AddString (String.append k "Error") (err_Error E) s',
               tr ++ [AddObjectCall k o;
                      AddStringCall (String.append k "Error") (err_Error E)]) tt).
Proof.
  split; intros x Hsink; unfold AddTo, bind, write; cbn; rewrite Hsink; cbn;
    rewrite <- app_assoc; reflexivity.
Qed.

(** C2: replaying [Float64 key v] makes the single call [AddFloat64 key v],
    with the very 64 bits of [v], whatever they are: the pattern survives
    [int64(math.Float64bits(v))] and [math.Float64frombits(uint64(ival))]. *)
Theorem Float64_replay_bit_exact (key : string) (v : float64) (s : S)
  (tr : list Call) :
  in_unsigned 64 v ->
  AddTo (Float64 key v) (s, tr) =
  Returned (AddFloat64 key v s, tr ++ [AddFloat64Call key v]) tt.
Proof.
  intros Hv. unfold AddTo, bind, write, ret; cbn.
  unfold Float64frombits, Float64bits. rewrite (to_uint64_to_int64 v Hv).
  reflexivity.
Qed.

(** C4: [Error] of the nil error replays to no sink call at all, and
    [Error] of a non-nil error to the single call [AddString "error"] with
    the error's message. *)
Theorem Error_replay (s : S) (tr : list Call) :
  AddTo (Error None) (s, tr) = Returned (s, tr) tt /\
  forall e : error,
    AddTo (Error (Some e)) (s, tr) =
    Returned (AddString "error" (err_Error e) s,
              tr ++ [AddStringCall "error" (err_Error e)]) tt.
Proof. split; reflexivity. Qed.

(** C5: a field whose kind is none of those [AddTo] has a case for (so any
    value outside the enumeration, and the unknown kind itself) makes
    [AddTo] panic, the sink untouched and no call made. *)
Theorem AddTo_unknown_kind_panics (f : Field) (s : S) (tr : list Call) :
  knownKind (fieldType f) = false ->
  AddTo f (s, tr) = Panicked (s, tr) (unknownFieldTypePanic f).
Proof. apply AddTo_unknown. Qed.

(** C6: [Base64 key bs] is a field of string kind that already holds the
    padded standard base64 text of [bs]; replaying it makes the single call
    [AddString key] with that text, and the bytes 0, 1, 2, 3 give
    ["AAECAw=="]. *)
Theorem Base64_replay (key : string) (bs : list byte) (s : S) (tr : list Call) :
  fieldType (Base64 key bs) = stringType /\
  str (Base64 key bs) = base64.EncodeToString bs /\
  AddTo (Base64 key bs) (s, tr) =
  Returned (AddString key (base64.EncodeToString bs) s,
            tr ++ [AddStringCall key (base64.EncodeToString bs)]) tt /\
  AddTo (Base64 "b" [x00; x01; x02; x03]) (s, tr) =
  Returned (AddString "b" "AAECAw==" s, tr ++ [AddStringCall "b" "AAECAw=="]) tt.
Proof. repeat split. Qed.

(** C7: replaying [Bool key b] makes the single call [AddBool key b],
    replaying [Int key n] the single call [AddInt key n] for every [n] of
    the platform's [int], and replaying [Int64 key m] the single call
    [AddInt64 key m]. *)
Theorem Bool_Int_Int64_replay_exact (key : string) (b : bool) (n m : Z)
  (s : S) (tr : list Call) :
  in_signed intSize n ->
  AddTo (Bool key b) (s, tr) =
    Returned (AddBool key b s, tr ++ [AddBoolCall key b]) tt /\
  AddTo (Int key n) (s, tr) =
    Returned (AddInt key n s, tr ++ [AddIntCall key n]) tt /\
  AddTo (Int64 key m) (s, tr) =
    Returned (AddInt64 key m s, tr ++ [AddInt64Call key m]) tt.
Proof.
  intros Hn. split; [apply AddTo_Bool | ].
  split; [apply AddTo_Int, Hn | apply AddTo_Int64].
Qed.

(** C9: the zero value of [Field] has the unknown kind, which is not the
    skip kind, so it is not the no-op field, and [AddTo] panics on it
    without touching the sink. *)
Theorem zero_Field_panics (s : S) (tr : list Call) :
  fieldType zeroField = unknownType /\
  unknownType <> skipType /\
  zeroField <> Skip /\
  AddTo zeroField (s, tr) = Panicked (s, tr) (unknownFieldTypePanic zeroField) /\
  AddTo Skip (s, tr) = Returned (s, tr) tt.
Proof. repeat split; discriminate. Qed.

End ReplayProperties.

(** C8: a field of a scalar kind (bool, float64, int, int64, string) or of
    the skip kind replayed into two sinks, of any two kinds and in any two
    states, returns both times, and both times makes the same calls, those
    [scalarCalls] reads off the field. *)
Theorem scalar_replay_deterministic `{Platform} (f : Field)
  (S1 S2 : Type) `{KeyValue S1} `{KeyValue S2} (s1 : S1) (s2 : S2) :
  scalarKind (fieldType f) = true ->
  returned (AddTo f (s1, [])) = true /\
  returned (AddTo f (s2, [])) = true /\
  snd (state_of (AddTo f (s1, []))) = scalarCalls f /\
  snd (state_of (AddTo f (s2, []))) = scalarCalls f.
Proof.
  intros Hk.
  destruct (AddTo_scalar f s1 [] Hk) as [s1' ->].
  destruct (AddTo_scalar f s2 [] Hk) as [s2' ->].
  repeat split.
Qed.

(** ** Nested groups *)

Section NestedGroups.

Context `{Platform}.

(** Replaying a group into a sink that honours the contract of
    [AddMarshaler]: one call on the sink, inside which the sub-scope is
    opened, the loop runs, and the sub-scope is closed if the loop
    returned. *)
Lemma AddTo_Nest_scoped {S : Type} {KV : KeyValue S} {SC : Scoped S} (key : string)
  (fs : list Field) (s : S) (tr : list Call) :
  AddTo (Nest key fs) (s, tr) =
  match addFields fs (openScope key s) with
  | Returned s' _ =>
      Returned (closeScope key s', tr ++ [AddMarshalerCall key (multiFields fs)]) tt
  | Panicked s' p =>
      Panicked (s', tr ++ [AddMarshalerCall key (multiFields fs)]) p
  end.
Proof.
  unfold AddTo, bind; cbn. rewrite AddMarshaler_scoped; cbn. unfold bind.
  destruct (addFields fs (openScope key s)) as [s' [] | s' p]; reflexivity.
Qed.

(** C3, as amended: replaying [Nest key fs] makes the single sink call
    [AddMarshaler key (multiFields fs)]; a sink honouring the contract
    opens the sub-scope [key], and the marshaler's [MarshalLog] runs
    [AddTo] on the fields of [fs], first to last, on any sink, up to the
    first one that panics.  When none panics every field is replayed and
    the sub-scope is closed; when one panics, that panic comes out, the
    fields after it are not replayed and the sub-scope is left open.  On
    the recording sink the fields that cannot panic write, between the
    opening and the closing of [key], what each of them writes in turn,
    inner groups included, to any depth. *)
Theorem Nest_replay_in_order (key : string) (fs : list Field) :
  (forall (S : Type) (KV : KeyValue S) (SC : Scoped S) (s : S) (tr : list Call),
     AddTo (Nest key fs) (s, tr) =
     match addFields fs (openScope key s) with
     | Returned s' _ =>
         Returned (closeScope key s',
                   tr ++ [AddMarshalerCall key (multiFields fs)]) tt
     | Panicked s' p =>
         Panicked (s', tr ++ [AddMarshalerCall key (multiFields fs)]) p
     end)
  /\
  (forall (S : Type) (KV : KeyValue S) (s s' : S),
     addFields fs s = Returned s' tt ->
     MarshalLog (multiFields fs) s =
     Returned (fold_left (fun st f => state_of (AddTo f st)) fs s) None)
  /\
  (forall (S : Type) (KV : KeyValue S) (pre post : list Field) (f : Field)
          (s s1 s2 : S) (p : PanicValue),
     fs = pre ++ f :: post ->
     addFields pre s = Returned s1 tt ->
     AddTo f s1 = Panicked s2 p ->
     MarshalLog (multiFields fs) s = Panicked s2 p)
  /\
  (forallb panicFree fs = true ->
   forall (log : list Event) (tr : list Call),
     AddTo (Nest key fs) (log, tr) =
     Returned (log ++ OpenEvent key :: flat_map replayEvents fs ++ [CloseEvent key],
               tr ++ [AddMarshalerCall key (multiFields fs)]) tt).
Proof.
  split; [ | split; [ | split]].
  - intros S KV SC s tr. apply AddTo_Nest_scoped.
  - intros S KV s s' Hloop. rewrite MarshalLog_multiFields, Hloop.
    destruct (addFields_returned fs _ _ Hloop) as [<- _]. reflexivity.
  - intros S KV pre post f s s1 s2 p -> Hpre Hf.
    rewrite MarshalLog_multiFields, (addFields_panicked pre post f s s1 s2 p Hpre Hf).
    reflexivity.
  - intros Hpf log tr.
    assert (Hall : Forall (fun f => forall log, AddTo f log =
                             Returned (log ++ replayEvents f) tt) fs).
    { apply (forallb_Forall_impl _ fs); [ | exact Hpf].
      apply Forall_forall. intros f _. apply Recorder_AddTo. }
    rewrite AddTo_Nest_scoped. cbn [openScope closeScope Recorder_Scoped].
    rewrite (Recorder_addFields fs Hall), <- !app_assoc. reflexivity.
Qed.

(** C10, as amended: [multiFields.MarshalLog] never returns an error.  It
    returns [nil] whenever the loop over the inner fields returns, whatever
    their encoders reported, and when an inner field panics that panic
    comes out of it instead.  Either way, replaying a group into a sink that
    honours the contract of [AddMarshaler] makes the single call
    [AddMarshaler key (multiFields fs)] and no [AddString] of [<key>Error];
    an inner marshaler's error is written by the inner field's own [AddTo],
    inside the loop. *)
Theorem multiFields_MarshalLog_nil {S : Type} {KV : KeyValue S} {SC : Scoped S}
  (key : string)
  (fs : list Field) (s : S) (tr : list Call) :
  (forall s', addFields fs s = Returned s' tt ->
     MarshalLog (multiFields fs) s = Returned s' None)
  /\
  (forall s' p, addFields fs s = Panicked s' p ->
     MarshalLog (multiFields fs) s = Panicked s' p)
  /\
  snd (state_of (AddTo (Nest key fs) (s, tr))) =
    tr ++ [AddMarshalerCall key (multiFields fs)]
  /\
  (forall (k : string) (m : LogMarshaler) (E : error) (s1 : S) (rest : list Field),
     AddMarshaler k m s = Returned s1 (Some E) ->
     addFields (Marshaler k (Some m) :: rest) s =
     addFields rest (AddString (String.append k "Error") (err_Error E) s1)).
Proof.
  repeat split.
  - intros s' Hloop. rewrite MarshalLog_multiFields, Hloop. reflexivity.
  - intros s' p Hloop. rewrite MarshalLog_multiFields, Hloop. reflexivity.
  - rewrite AddTo_Nest_scoped.
    destruct (addFields fs (openScope key s)) as [s' [] | s' p]; reflexivity.
  - intros k m E s1 rest Hsink. cbn. unfold AddTo, bind, write; cbn.
    rewrite Hsink. reflexivity.
Qed.

End NestedGroups.

(** ** The theorems at concrete fields, on a 64-bit and a 32-bit platform *)

Section Examples.

#[local] Existing Instance amd64.

Ltac in_range := cbv; split; [discriminate | reflexivity].

Lemma AddTo_absorbs_encoder_error_witness :
  AddTo (Marshaler "user" (Some failingUser)) (0%nat, []) =
  Returned (1%nat, [AddMarshalerCall "user" failingUser;
                    AddStringCall "userError" "unsupported value"]) tt /\
  AddTo (Object "payload" (otherValue "map[int]string")) (0%nat, []) =
  Returned (1%nat, [AddObjectCall "payload" (otherValue "map[int]string");
                    AddStringCall "payloadError" "unsupported value"]) tt.
Proof.
  split.
  - exact (proj1 (AddTo_absorbs_encoder_error "user" 0 "" refusal 0%nat 0%nat [])
             failingUser eq_refl).
  - exact (proj2 (AddTo_absorbs_encoder_error "payload" 0 "" refusal 0%nat 0%nat [])
             (otherValue "map[int]string") eq_refl).
Defined.

Lemma Float64_replay_bit_exact_witness :
  negativeZero <> positiveZero /\
  AddTo (Float64 "x" negativeZero) (([] : list Event), []) =
  Returned ([Float64Event "x" negativeZero], [AddFloat64Call "x" negativeZero]) tt /\
  AddTo (Float64 "x" positiveZero) (([] : list Event), []) =
  Returned ([Float64Event "x" positiveZero], [AddFloat64Call "x" positiveZero]) tt /\
  AddTo (Float64 "x" quietNaN) (([] : list Event), []) =
  Returned ([Float64Event "x" quietNaN], [AddFloat64Call "x" quietNaN]) tt /\
  AddTo (Float64 "x" positiveInfinity) (([] : list Event), []) =
  Returned ([Float64Event "x" positiveInfinity],
            [AddFloat64Call "x" positiveInfinity]) tt /\
  AddTo (Float64 "x" negativeInfinity) (([] : list Event), []) =
  Returned ([Float64Event "x" negativeInfinity],
            [AddFloat64Call "x" negativeInfinity]) tt.
Proof.
  split; [discriminate | ].
  split; [ | split; [ | split; [ | split]]];
    (refine (Float64_replay_bit_exact "x" _ ([] : list Event) [] _); in_range).
Defined.

Lemma AddTo_unknown_kind_panics_witness :
  AddTo (mkField "k" 10 1 "v" nilValue) (([] : list Event), []) =
  Panicked ([], []) (unknownFieldTypePanic (mkField "k" 10 1 "v" nilValue)) /\
  AddTo (mkField "k" (-1) 1 "v" nilValue) (([] : list Event), []) =
  Panicked ([], []) (unknownFieldTypePanic (mkField "k" (-1) 1 "v" nilValue)).
Proof.
  split.
  - exact (AddTo_unknown_kind_panics (mkField "k" 10 1 "v" nilValue) [] [] eq_refl).
  - exact (AddTo_unknown_kind_panics (mkField "k" (-1) 1 "v" nilValue) [] [] eq_refl).
Defined.

Lemma Bool_Int_Int64_replay_exact_witness :
  AddTo (Int "n" (-9223372036854775808)) (([] : list Event), []) =
  Returned ([IntEvent "n" (-9223372036854775808)],
            [AddIntCall "n" (-9223372036854775808)]) tt /\
  AddTo (H := i386) (Int "n" 2147483647) (([] : list Event), []) =
  Returned ([IntEvent "n" 2147483647], [AddIntCall "n" 2147483647]) tt /\
  AddTo (Int64 "m" 9223372036854775807) (([] : list Event), []) =
  Returned ([Int64Event "m" 9223372036854775807],
            [AddInt64Call "m" 9223372036854775807]) tt /\
  AddTo (Bool "b" false) (([] : list Event), []) =
  Returned ([BoolEvent "b" false], [AddBoolCall "b" false]) tt.
Proof.
  assert (H64 : in_signed (@intSize amd64) (-9223372036854775808)) by in_range.
  assert (H32 : in_signed (@intSize i386) 2147483647) by in_range.
  split; [ | split; [ | split]].
  - exact (proj1 (proj2 (Bool_Int_Int64_replay_exact (H := amd64)
             "n" false (-9223372036854775808) 0 ([] : list Event) [] H64))).
  - exact (proj1 (proj2 (Bool_Int_Int64_replay_exact (H := i386)
             "n" false 2147483647 0 ([] : list Event) [] H32))).
  - exact (proj2 (proj2 (Bool_Int_Int64_replay_exact (H := amd64)
             "m" false (-9223372036854775808) 9223372036854775807
             ([] : list Event) [] H64))).
  - exact (proj1 (Bool_Int_Int64_replay_exact (H := amd64)
             "b" false (-9223372036854775808) 0 ([] : list Event) [] H64)).
Defined.

Lemma scalar_replay_deterministic_witness :
  snd (state_of (AddTo (Float64 "t" quietNaN) (([] : list Event), []))) =
    [AddFloat64Call "t" quietNaN] /\
  snd (state_of (AddTo (Float64 "t" quietNaN) (7%nat, []))) =
    [AddFloat64Call "t" quietNaN].
Proof.
  exact (proj2 (proj2 (scalar_replay_deterministic (Float64 "t" quietNaN)
                         (list Event) nat [] 7%nat eq_refl))).
Defined.

Lemma Nest_replay_in_order_witness :
  AddTo (Nest "req" reqFields) (([] : list Event), []) =
  Returned ([OpenEvent "req"; IntEvent "status" 200; StringEvent "method" "GET";
             CloseEvent "req"],
            [AddMarshalerCall "req" (multiFields reqFields)]) tt /\
  MarshalLog (multiFields reqFields) 0%nat = Returned 2%nat None /\
  MarshalLog (multiFields forgedGroup) ([] : list Event) =
  Panicked [] (unknownFieldTypePanic zeroField) /\
  AddTo (Nest "outer" deepFields) (([] : list Event), []) =
  Returned ([OpenEvent "outer";
             OpenEvent "inner"; BoolEvent "ok" true;
             OpenEvent "innermost"; CloseEvent "innermost";
             CloseEvent "inner";
             OpenEvent "user"; StringEvent "name" "x"; CloseEvent "user";
             StringEvent "userError" "no access";
             CloseEvent "outer"],
            [AddMarshalerCall "outer" (multiFields deepFields)]) tt.
Proof.
  split; [ | split; [ | split]].
  - exact (proj1 (Nest_replay_in_order "req" reqFields) (list Event) _ _ [] []).
  - exact (proj1 (proj2 (Nest_replay_in_order "req" reqFields))
             nat _ 0%nat 2%nat eq_refl).
  - exact (proj1 (proj2 (proj2 (Nest_replay_in_order "req" forgedGroup)))
             (list Event) _ [] [Int "status" 200] zeroField [] [] []
             (unknownFieldTypePanic zeroField) eq_refl eq_refl eq_refl).
  - exact (proj2 (proj2 (proj2 (Nest_replay_in_order "outer" deepFields)))
             eq_refl [] []).
Defined.

(** C3 as stated fails on a group holding a field that panics: the loop
    stops there, the fields after it are not replayed, and the sub-scope
    stays open. *)
Lemma Nest_replay_stops_at_panic :
  MarshalLog (multiFields forgedGroup) ([] : list Event) =
    Panicked [] (unknownFieldTypePanic zeroField) /\
  AddTo (Nest "req" forgedGroup) (([] : list Event), []) =
    Panicked ([OpenEvent "req"], [AddMarshalerCall "req" (multiFields forgedGroup)])
             (unknownFieldTypePanic zeroField) /\
  AddTo (Nest "req" [Int "status" 200]) (([] : list Event), []) =
    Returned ([OpenEvent "req"; IntEvent "status" 200; CloseEvent "req"],
              [AddMarshalerCall "req" (multiFields [Int "status" 200])]) tt.
Proof. repeat split. Qed.

Lemma multiFields_MarshalLog_nil_witness :
  MarshalLog (multiFields [Marshaler "user" (Some failingUser)]) ([] : list Event) =
  Returned [OpenEvent "user"; StringEvent "name" "x"; CloseEvent "user";
            StringEvent "userError" "no access"] None /\
  addFields [Marshaler "user" (Some failingUser); Bool "b" true] ([] : list Event) =
  addFields [Bool "b" true]
    [OpenEvent "user"; StringEvent "name" "x"; CloseEvent "user";
     StringEvent "userError" "no access"] /\
  MarshalLog (multiFields [zeroField]) ([OpenEvent "g"] : list Event) =
  Panicked [OpenEvent "g"] (unknownFieldTypePanic zeroField).
Proof.
  split; [ | split].
  - exact (proj1 (multiFields_MarshalLog_nil "g"
                    [Marshaler "user" (Some failingUser)] ([] : list Event) [])
             _ eq_refl).
  - exact (proj2 (proj2 (proj2 (multiFields_MarshalLog_nil "g" [] ([] : list Event) [])))
             "user" failingUser (errorString "no access") _ [Bool "b" true] eq_refl).
  - exact (proj1 (proj2 (multiFields_MarshalLog_nil "g" [zeroField]
                           ([OpenEvent "g"] : list Event) []))
             _ _ eq_refl).
Defined.

(** C10 as stated fails when an inner field panics: [MarshalLog] does not
    return [nil], it does not return.  The first group holds the zero
    field, the second a stringer field built from the nil interface. *)
Lemma MarshalLog_panics_with_inner_field :
  MarshalLog (multiFields [zeroField]) ([] : list Event) =
    Panicked [] (unknownFieldTypePanic zeroField) /\
  MarshalLog (multiFields [Bool "b" true; Stringer "who" None]) ([] : list Event) =
    Panicked [BoolEvent "b" true] (typeAssertionPanic nilValue "fmt.Stringer") /\
  returned (MarshalLog (multiFields [zeroField]) ([] : list Event)) = false.
Proof. repeat split. Qed.

End Examples.

(** * Further properties of replay *)

(** ** Conversions of the payload slot *)

Lemma wrap_signed_range (w x : Z) : 0 < w -> in_signed w (wrap_signed w x).
Proof.
  unfold in_signed, wrap_signed. intros Hw.
  assert (Hp : 2 ^ w = 2 * 2 ^ (w - 1)).
  { rewrite <- Z.pow_succ_r by lia. f_equal. lia. }
  assert (0 < 2 ^ (w - 1)) by (apply Z.pow_pos_nonneg; lia).
  pose proof (Z.mod_pos_bound (x + 2 ^ (w - 1)) (2 ^ w)) as Hm. lia.
Qed.

Lemma wrap_signed_congruent (w x : Z) :
  0 < w -> (wrap_signed w x - x) mod 2 ^ w = 0.
Proof.
  unfold wrap_signed. intros Hw.
  assert (0 < 2 ^ w) by (apply Z.pow_pos_nonneg; lia).
  rewrite (Z.mod_eq (x + 2 ^ (w - 1)) (2 ^ w)) by lia.
  replace (x + 2 ^ (w - 1) - 2 ^ w * ((x + 2 ^ (w - 1)) / 2 ^ w) - 2 ^ (w - 1) - x)
    with (- ((x + 2 ^ (w - 1)) / 2 ^ w) * 2 ^ w) by ring.
  apply Z.mod_mul. lia.
Qed.

Lemma wrap_unsigned_range (w x : Z) : 0 <= w -> in_unsigned w (wrap_unsigned w x).
Proof.
  unfold in_unsigned, wrap_unsigned. intros Hw.
  apply Z.mod_pos_bound, Z.pow_pos_nonneg; lia.
Qed.

(** ** Single fields, on any sink *)

Section FieldProperties.

Context `{Platform} {S : Type} `{KeyValue S}.

Lemma AddTo_skipKind (f : Field) (s : S) :
  fieldType f = skipType -> AddTo f s = Returned s tt.
Proof.
  intros Hk. unfold AddTo, bind, ret. rewrite Hk. reflexivity.
Qed.

(** X1: a field of int kind always hands [AddInt] a value of the
    platform's [int], the payload wrapped to its width (so the payload
    itself when it fits), and a field of float kind always hands
    [AddFloat64] a 64-bit pattern, whatever the payload slot holds. *)
Theorem AddTo_payload_conversions (k : string) (i : Z) (st : string) (o : Obj)
  (s : S) (tr : list Call) :
  (AddTo (mkField k intType i st o) (s, tr) =
     Returned (AddInt k (to_int i) s, tr ++ [AddIntCall k (to_int i)]) tt /\
   in_signed intSize (to_int i) /\
   (to_int i - i) mod 2 ^ intSize = 0 /\
   (in_signed intSize i -> to_int i = i)) /\
  (AddTo (mkField k floatType i st o) (s, tr) =
     Returned (AddFloat64 k (to_uint64 i) s, tr ++ [AddFloat64Call k (to_uint64 i)]) tt /\
   in_unsigned 64 (to_uint64 i)).
Proof.
  pose proof intSize_bounds as Hb.
  repeat split.
  - apply wrap_signed_range; lia.
  - apply wrap_signed_range; lia.
  - apply wrap_signed_congruent; lia.
  - intros Hi. apply wrap_signed_id; [lia | exact Hi].
  - apply wrap_unsigned_range; lia.
  - apply wrap_unsigned_range; lia.
Qed.

(** X2: when the payload of a stringer or marshaler field does not
    implement the interface of its kind (the nil interface value never
    does), [AddTo] panics on the type assertion before any sink call: the
    sink is untouched. *)
Theorem AddTo_type_assertion_panics (f : Field) (s : S) (tr : list Call) :
  assertionFails f = true ->
  AddTo f (s, tr) =
  Panicked (s, tr) (typeAssertionPanic (obj f) (assertedInterface f)).
Proof.
  unfold assertionFails, assertedInterface, AddTo, bind.
  destruct f as [k t i st o]; cbn [fieldType key ival str obj].
  destruct (Z.eqb_spec t stringerType) as [-> | Hs].
  - destruct o; (discriminate || reflexivity).
  - destruct (Z.eqb_spec t marshalerType) as [-> | Hm]; [ | discriminate].
    destruct o; (discriminate || reflexivity).
Qed.

(** X3: [Stringer] and [Marshaler] accept the nil interface at
    construction and fail only at replay: a stringer field built from a
    value replays as the single call [AddString] with the string of that
    value, while the fields built from nil make [AddTo] panic without
    touching the sink. *)
Theorem Stringer_Marshaler_replay (key v : string) (s : S) (tr : list Call) :
  AddTo (Stringer key (Some v)) (s, tr) =
    Returned (AddString key v s, tr ++ [AddStringCall key v]) tt /\
  AddTo (Stringer key None) (s, tr) =
    Panicked (s, tr) (typeAssertionPanic nilValue "fmt.Stringer") /\
  AddTo (Marshaler key None) (s, tr) =
    Panicked (s, tr) (typeAssertionPanic nilValue "zap.LogMarshaler").
Proof. repeat split. Qed.

(** X4: for a field of marshaler or object kind, when the sink's encoder
    returns no error [AddTo] makes that call alone and returns, and when
    the encoder panics the panic comes out of [AddTo] after that call
    alone: no [<key>Error] field is written in either case. *)
Theorem AddTo_encoder_nil_or_panic (k : string) (i : Z) (st : string)
  (s s' : S) (tr : list Call) :
  (forall m : LogMarshaler,
     (AddMarshaler k m s = Returned s' None ->
      AddTo (mkField k marshalerType i st (marshalerValue m)) (s, tr) =
      Returned (s', tr ++ [AddMarshalerCall k m]) tt) /\
     (forall p, AddMarshaler k m s = Panicked s' p ->
      AddTo (mkField k marshalerType i st (marshalerValue m)) (s, tr) =
      Panicked (s', tr ++ [AddMarshalerCall k m]) p)) /\
  (forall o : Obj,
     (AddObject k o s = Returned s' None ->
      AddTo (mkField k objectType i st o) (s, tr) =
      Returned (s', tr ++ [AddObjectCall k o]) tt) /\
     (forall p, AddObject k o s = Panicked s' p ->
      AddTo (mkField k objectType i st o) (s, tr) =
      Panicked (s', tr ++ [AddObjectCall k o]) p)).
Proof.
  split; intros x; split; [intros Hsink | intros p Hsink | intros Hsink | intros p Hsink];
    unfold AddTo, bind, write; cbn; rewrite Hsink; reflexivity.
Qed.

(** X5: [Duration] records a duration as its count of nanoseconds: the
    field is the [Int64] field of that count and replays as the single call
    [AddInt64] with it. *)
Theorem Duration_replay (key : string) (d : Z) (s : S) (tr : list Call) :
  in_signed 64 d ->
  Duration key d = Int64 key d /\
  AddTo (Duration key d) (s, tr) =
  Returned (AddInt64 key d s, tr ++ [AddInt64Call key d]) tt.
Proof.
  intros Hd. unfold Duration, to_int64.
  rewrite (wrap_signed_id 64 d) by (lia || exact Hd).
  split; [reflexivity | apply AddTo_Int64].
Qed.

(** X6: [Time] replays as the single call [AddFloat64] with the very
    seconds [timeToSeconds] gave for the timestamp. *)
Theorem Time_replay (time_Time : Type) (timeToSeconds : time_Time -> float64)
  (key : string) (t : time_Time) (s : S) (tr : list Call) :
  in_unsigned 64 (timeToSeconds t) ->
  AddTo (Time time_Time timeToSeconds key t) (s, tr) =
  Returned (AddFloat64 key (timeToSeconds t) s,
            tr ++ [AddFloat64Call key (timeToSeconds t)]) tt.
Proof.
  intros Hv. unfold Time, AddTo, bind, write, ret; cbn.
  unfold Float64frombits, Float64bits. rewrite (to_uint64_to_int64 _ Hv).
  reflexivity.
Qed.

End FieldProperties.

(** ** The calls of one field *)

Section CallShape.

Context `{Platform} {S : Type} `{KeyValue S}.

(** The calls [AddTo] adds to those already made. *)
Lemma AddTo_appends_calls (f : Field) (s : S) (tr : list Call) :
  exists calls : list Call,
    snd (state_of (AddTo f (s, tr))) = tr ++ calls /\
    (calls = [] \/
     (exists c, calls = [c] /\ callKey c = key f) \/
     (exists c msg,
        calls = [c; AddStringCall (String.append (key f) "Error") msg] /\
        callKey c = key f /\
        ((exists m, c = AddMarshalerCall (key f) m) \/
         (exists o, c = AddObjectCall (key f) o)))).
Proof.
  destruct f as [k t i st o].
  unfold AddTo, bind, write, ret, panic. cbn [fieldType key ival str obj].
  destruct (t =? boolType); [eexists; split; [reflexivity | right; left; eauto] | ].
  destruct (t =? floatType); [eexists; split; [reflexivity | right; left; eauto] | ].
  destruct (t =? intType); [eexists; split; [reflexivity | right; left; eauto] | ].
  destruct (t =? int64Type); [eexists; split; [reflexivity | right; left; eauto] | ].
  destruct (t =? stringType); [eexists; split; [reflexivity | right; left; eauto] | ].
  destruct (t =? stringerType).
  { destruct o; cbn;
      try (exists []; rewrite app_nil_r; split; [reflexivity | left; reflexivity]).
    eexists; split; [reflexivity | right; left; eauto]. }
  destruct (t =? marshalerType).
  { destruct o as [ | m | | ]; cbn;
      try (exists []; rewrite app_nil_r; split; [reflexivity | left; reflexivity]).
    destruct (AddMarshaler k m s) as [s' [e | ] | s' p]; cbn.
    - eexists; split; [rewrite <- app_assoc; reflexivity | ].
      right; right. exists (AddMarshalerCall k m), (err_Error e). eauto.
    - eexists; split; [reflexivity | right; left; eauto].
    - eexists; split; [reflexivity | right; left; eauto]. }
  destruct (t =? objectType).
  { cbn. destruct (AddObject k o s) as [s' [e | ] | s' p]; cbn.
    - eexists; split; [rewrite <- app_assoc; reflexivity | ].
      right; right. exists (AddObjectCall k o), (err_Error e). eauto.
    - eexists; split; [reflexivity | right; left; eauto].
    - eexists; split; [reflexivity | right; left; eauto]. }
  destruct (t =? skipType);
    exists []; rewrite app_nil_r; split; try reflexivity; left; reflexivity.
Qed.

(** X7: whatever the field and the sink, [AddTo] only adds to the calls
    already made, and adds at most two: none, or one call under the field's
    own key, or an [AddMarshaler] or [AddObject] call under the field's key
    followed by an [AddString] under that key suffixed with ["Error"]. *)
Theorem AddTo_calls_shape (f : Field) (s : S) (tr : list Call) :
  exists calls : list Call,
    snd (state_of (AddTo f (s, tr))) = tr ++ calls /\
    (calls = [] \/
     (exists c, calls = [c] /\ callKey c = key f) \/
     (exists c msg,
        calls = [c; AddStringCall (String.append (key f) "Error") msg] /\
        callKey c = key f /\
        ((exists m, c = AddMarshalerCall (key f) m) \/
         (exists o, c = AddObjectCall (key f) o)))).
Proof. apply AddTo_appends_calls. Qed.

End CallShape.

(** ** Lists of fields, on any sink *)

Section ListProperties.

Context `{Platform} {S : Type} `{KeyValue S}.

(** X8: replaying two lists of fields one after the other is replaying
    their concatenation: the second list is replayed from the state the
    first one left, and not at all when the first one panicked. *)
Theorem addFields_concat (fs gs : list Field) (s : S) :
  addFields (fs ++ gs) s =
  match addFields fs s with
  | Returned s' _ => addFields gs s'
  | Panicked s' p => Panicked s' p
  end.
Proof. apply addFields_app. Qed.

(** X9: fields of the skip kind can be dropped from a list without any
    change to its replay, outcome and sink state alike. *)
Theorem addFields_skip_neutral (fs : list Field) (s : S) :
  addFields (filter nonSkip fs) s = addFields fs s.
Proof.
  revert s. induction fs as [| f fs IH]; intros s; [reflexivity | ].
  cbn [filter]. unfold nonSkip at 1.
  destruct (Z.eqb_spec (fieldType f) skipType) as [Hk | Hk]; cbn [negb addFields].
  - unfold bind. rewrite (AddTo_skipKind f s Hk). apply IH.
  - unfold bind. destruct (AddTo f s) as [s' [] | s' p]; [apply IH | reflexivity].
Qed.

(** X10: a list of fields of scalar kinds (and no-ops) replays, on any
    sink, as the calls of its fields in the order of the list, and
    returns. *)
Theorem addFields_scalars_in_order (fs : list Field) (s : S) (tr : list Call) :
  forallb (fun f => scalarKind (fieldType f)) fs = true ->
  exists s', addFields fs (s, tr) = Returned (s', tr ++ flat_map scalarCalls fs) tt.
Proof.
  revert s tr. induction fs as [| f fs IH]; intros s tr Hall; cbn.
  - exists s. rewrite app_nil_r. reflexivity.
  - cbn in Hall. apply andb_true_iff in Hall. destruct Hall as [Hf Hfs].
    destruct (AddTo_scalar f s tr Hf) as [s1 E1].
    destruct (IH s1 (tr ++ scalarCalls f) Hfs) as [s2 E2].
    exists s2. unfold bind. rewrite E1, E2, app_assoc. reflexivity.
Qed.

End ListProperties.

(** ** When replay panics *)

Section PanicFreedom.

Context `{Platform} {S : Type} {KV : KeyValue S} {SC : Scoped S}.

Hypothesis AddObject_returns : encoderReturns.

Lemma returned_addFields (fs : list Field) :
  Forall (fun f => forall s : S, returned (AddTo f s) = panicFree f) fs ->
  forall s : S, returned (addFields fs s) = forallb panicFree fs.
Proof.
  induction 1 as [| f fs Hf _ IH]; intros s; cbn; [reflexivity | ].
  unfold bind. rewrite <- (Hf s).
  destruct (AddTo f s) as [s' [] | s' p]; cbn; [apply IH | reflexivity].
Qed.

Lemma returned_MarshalLog (m : LogMarshaler) (fs : list Field) :
  (m = multiFields fs \/ exists err, m = userMarshaler fs err) ->
  Forall (fun f => forall s : S, returned (AddTo f s) = panicFree f) fs ->
  forall (k : string) (s : S),
    returned ((e <- AddMarshaler k m ;;
               match e with
               | Some e' => write (AddString (String.append k "Error") (err_Error e'))
               | None => ret tt
               end) s) = forallb panicFree fs.
Proof.
  intros Hm Hfs k s. unfold bind. rewrite AddMarshaler_scoped.
  rewrite <- (returned_addFields fs Hfs (openScope k s)).
  destruct Hm as [-> | [err ->]]; cbn [MarshalLog]; unfold bind, ret;
    destruct (addFields fs (openScope k s)) as [s' [] | s' p]; cbn;
    try reflexivity.
  destruct err; reflexivity.
Qed.

Lemma returned_AddTo (f : Field) (s : S) :
  returned (AddTo f s) = panicFree f.
Proof.
  revert s. induction f as [k t i st o IH] using Field_nested_ind. intros s.
  cbn [panicFree]. unfold AddTo. cbn [fieldType key ival str obj].
  destruct (Z.eqb_spec t boolType) as [-> | Hb]; [reflexivity | ].
  destruct (Z.eqb_spec t floatType) as [-> | Hfl]; [reflexivity | ].
  destruct (Z.eqb_spec t intType) as [-> | Hi]; [reflexivity | ].
  destruct (Z.eqb_spec t int64Type) as [-> | Hi64]; [reflexivity | ].
  destruct (Z.eqb_spec t stringType) as [-> | Hs]; [reflexivity | ].
  destruct (Z.eqb_spec t stringerType) as [-> | Hst].
  { destruct o; reflexivity. }
  destruct (Z.eqb_spec t marshalerType) as [-> | Hm].
  { destruct o as [ | [fs | fs err] | | ]; try reflexivity; cbn in IH.
    - apply (returned_MarshalLog _ fs); [left; reflexivity | exact IH].
    - apply (returned_MarshalLog _ fs); [right; eexists; reflexivity | exact IH]. }
  destruct (Z.eqb_spec t objectType) as [-> | Ho].
  { unfold bind. pose proof (AddObject_returns k o s) as Hret.
    destruct (AddObject k o s) as [s' [e | ] | s' p]; [reflexivity | reflexivity | discriminate]. }
  destruct (Z.eqb_spec t skipType) as [-> | Hsk]; [reflexivity | ].
  cbn. symmetry. apply andb_false_iff. rewrite !Z.leb_gt.
  unfold_kinds. lia.
Qed.

End PanicFreedom.

Lemma Constructed_panicFree (f : Field) : Constructed f -> panicFree f = true.
Proof.
  revert f. fix IH 2. intros f [ | | | | | | | | | e | | k fs err Hfs | k fs Hfs];
    try reflexivity.
  - destruct e; reflexivity.
  - cbn. revert fs Hfs. fix IHl 2.
    intros fs [| x l Hx Hl]; cbn; [reflexivity | ].
    rewrite (IH x Hx), (IHl l Hl). reflexivity.
  - cbn. revert fs Hfs. fix IHl 2.
    intros fs [| x l Hx Hl]; cbn; [reflexivity | ].
    rewrite (IH x Hx), (IHl l Hl). reflexivity.
Qed.



(** ** The text of a base64 field *)

Lemma length_string_of_list_ascii (l : list ascii) :
  String.length (string_of_list_ascii l) = List.length l.
Proof. induction l as [| c l IH]; cbn; [reflexivity | rewrite IH; reflexivity]. Qed.

(** X13: the text a [Base64] field holds is padded: four characters for
    every group of up to three bytes, nothing for no bytes. *)
Theorem Base64_padded_length (key : string) (bs : list byte) :
  String.length (str (Base64 key bs)) = (4 * ((List.length bs + 2) / 3))%nat.
Proof.
  cbn. unfold base64.EncodeToString.
  rewrite length_string_of_list_ascii. apply Encode_length.
Qed.

(** ** Nothing is lost in a base64 field *)

Lemma lor_shiftl_add (x y n : Z) :
  0 <= n -> 0 <= y < 2 ^ n -> Z.lor (Z.shiftl x n) y = x * 2 ^ n + y.
Proof.
  intros Hn Hy. rewrite Z.shiftl_mul_pow2 by lia.
  assert (Hland : Z.land (x * 2 ^ n) y = 0).
  { apply Z.bits_inj'. intros k Hk. rewrite Z.land_spec, Z.bits_0.
    destruct (Z.lt_ge_cases k n) as [Hlt | Hge].
    - rewrite Z.mul_pow2_bits_low by lia. reflexivity.
    - replace (Z.testbit y k) with false; [apply andb_false_r | ].
      symmetry. apply Z.testbit_false; [lia | ].
      rewrite Z.div_small; [reflexivity | ].
      assert (2 ^ n <= 2 ^ k) by (apply Z.pow_le_mono_r; lia). lia. }
  rewrite <- Z.lxor_lor by exact Hland.
  symmetry. apply Z.add_nocarry_lxor. exact Hland.
Qed.

Lemma uint_range (b : byte) : 0 <= base64.uint b < 256.
Proof.
  unfold base64.uint. pose proof (Byte.to_N_bounded b) as Hb. lia.
Qed.

Lemma land_63 (v : Z) : Z.land v 63 = v mod 64.
Proof. change 63 with (Z.ones 6). rewrite Z.land_ones by lia. reflexivity. Qed.

Lemma sextet_encode (i : Z) :
  0 <= i < 64 ->
  sextet (base64.encode i) = i /\ isPadding (base64.encode i) = false.
Proof.
  intros Hi. rewrite <- (Z2Nat.id i) by lia.
  assert (Hn : (Z.to_nat i < 64)%nat) by lia.
  generalize dependent (Z.to_nat i). intros n Hn.
  do 64 (destruct n as [| n]; [vm_compute; split; reflexivity | ]).
  lia.
Qed.

Lemma decode_group (v : Z) (rest : list ascii) :
  0 <= v < 16777216 ->
  DecodeText (base64.encode (v / 262144 mod 64) :: base64.encode (v / 4096 mod 64)
              :: base64.encode (v / 64 mod 64) :: base64.encode (v mod 64) :: rest) =
  v / 65536 mod 256 :: v / 256 mod 256 :: v mod 256 :: DecodeText rest.
Proof.
  intros Hv. cbn [DecodeText].
  destruct (sextet_encode (v / 262144 mod 64)) as [-> _]; [apply Z.mod_pos_bound; lia | ].
  destruct (sextet_encode (v / 4096 mod 64)) as [-> _]; [apply Z.mod_pos_bound; lia | ].
  destruct (sextet_encode (v / 64 mod 64)) as [-> ->]; [apply Z.mod_pos_bound; lia | ].
  destruct (sextet_encode (v mod 64)) as [-> ->]; [apply Z.mod_pos_bound; lia | ].
  replace (v / 262144 mod 64 * 262144 + v / 4096 mod 64 * 4096 + v / 64 mod 64 * 64 + v mod 64)
    with v by (Z.div_mod_to_equations; lia).
  reflexivity.
Qed.

Lemma quantum_value (a b c : byte) :
  Z.lor (Z.lor (Z.shiftl (base64.uint a) 16) (Z.shiftl (base64.uint b) 8))
        (base64.uint c) =
  base64.uint a * 65536 + base64.uint b * 256 + base64.uint c.
Proof.
  pose proof (uint_range a) as Ha. pose proof (uint_range b) as Hb.
  pose proof (uint_range c) as Hc.
  assert (Hsb : Z.shiftl (base64.uint b) 8 = base64.uint b * 256)
    by (rewrite Z.shiftl_mul_pow2 by lia; reflexivity).
  assert (Hsab : Z.shiftl (base64.uint a * 256 + base64.uint b) 8 =
                 base64.uint a * 65536 + base64.uint b * 256)
    by (rewrite Z.shiftl_mul_pow2 by lia; change (2 ^ 8) with 256; lia).
  rewrite Hsb.
  rewrite (lor_shiftl_add (base64.uint a) (base64.uint b * 256) 16)
    by (change (2 ^ 16) with 65536; lia).
  change (2 ^ 16) with 65536. rewrite <- Hsab.
  rewrite lor_shiftl_add by (change (2 ^ 8) with 256; lia).
  change (2 ^ 8) with 256. lia.
Qed.

Lemma land_shiftr_63 (v k : Z) :
  0 <= k -> Z.land (Z.shiftr v k) 63 = (v / 2 ^ k) mod 64.
Proof.
  intros Hk. rewrite Z.shiftr_div_pow2 by lia. apply land_63.
Qed.

Lemma Encode_lossless (src : list byte) :
  DecodeText (base64.Encode src) = map base64.uint src.
Proof.
  induction src as [| a | a b | a b c rest IH] using bytes_ind3.
  - reflexivity.
  - destruct a; vm_compute; reflexivity.
  - pose proof (uint_range a) as Ha. pose proof (uint_range b) as Hb.
    cbn [base64.Encode map].
    pose proof (quantum_value a b x00) as Hv.
    change (base64.uint x00) with 0 in Hv. rewrite Z.lor_0_r, Z.add_0_r in Hv.
    rewrite Hv, !land_shiftr_63 by lia.
    change (2 ^ 18) with 262144. change (2 ^ 12) with 4096. change (2 ^ 6) with 64.
    set (v := base64.uint a * 65536 + base64.uint b * 256).
    assert (Hvr : 0 <= v < 16777216) by (subst v; lia).
    cbn [DecodeText].
    destruct (sextet_encode (v / 262144 mod 64)) as [-> _]; [apply Z.mod_pos_bound; lia | ].
    destruct (sextet_encode (v / 4096 mod 64)) as [-> _]; [apply Z.mod_pos_bound; lia | ].
    destruct (sextet_encode (v / 64 mod 64)) as [-> ->]; [apply Z.mod_pos_bound; lia | ].
    change (isPadding base64.StdPadding) with true.
    change (sextet base64.StdPadding) with 0. cbv iota.
    f_equal; [ | f_equal]; subst v; Z.div_mod_to_equations; lia.
  - pose proof (uint_range a) as Ha. pose proof (uint_range b) as Hb.
    pose proof (uint_range c) as Hc.
    change (base64.Encode (a :: b :: c :: rest))
      with (base64.quantum a b c ++ base64.Encode rest).
    unfold base64.quantum. cbv zeta.
    rewrite quantum_value, !land_shiftr_63, land_63 by lia.
    change (2 ^ 18) with 262144. change (2 ^ 12) with 4096. change (2 ^ 6) with 64.
    set (v := base64.uint a * 65536 + base64.uint b * 256 + base64.uint c).
    assert (Hvr : 0 <= v < 16777216) by (subst v; lia).
    cbn [app]. rewrite (decode_group v _ Hvr), IH. cbn [map].
    f_equal; [ | f_equal; [ | f_equal]]; subst v; Z.div_mod_to_equations; lia.
Qed.

Lemma uint_injective (a b : byte) : base64.uint a = base64.uint b -> a = b.
Proof.
  unfold base64.uint. intros E. apply N2Z.inj in E.
  apply (f_equal Byte.of_N) in E. rewrite !Byte.of_to_N in E.
  injection E as ->. reflexivity.
Qed.

Lemma Encode_injective (bs1 bs2 : list byte) :
  base64.Encode bs1 = base64.Encode bs2 -> bs1 = bs2.
Proof.
  intros E. apply (f_equal DecodeText) in E. rewrite !Encode_lossless in E.
  revert bs2 E. induction bs1 as [| a bs1 IH]; intros [| b bs2] E;
    try discriminate E; [reflexivity | ].
  injection E as Hab Hrest. f_equal; [apply uint_injective, Hab | apply IH, Hrest].
Qed.

(** X14: the text of a [Base64] field decodes back to the very bytes it
    was built from, so two such fields are equal only when their keys and
    their bytes are. *)
Theorem Base64_lossless (k1 k2 : string) (bs1 bs2 : list byte) :
  DecodeText (list_ascii_of_string (str (Base64 k1 bs1))) = map base64.uint bs1 /\
  (Base64 k1 bs1 = Base64 k2 bs2 -> k1 = k2 /\ bs1 = bs2).
Proof.
  split.
  - cbn. unfold base64.EncodeToString.
    rewrite list_ascii_of_string_of_list_ascii. apply Encode_lossless.
  - unfold Base64, String, base64.EncodeToString. intros E.
    injection E as Hk Hs. split; [exact Hk | ].
    apply Encode_injective.
    apply (f_equal list_ascii_of_string) in Hs.
    rewrite !list_ascii_of_string_of_list_ascii in Hs. exact Hs.
Qed.

(** ** The calls of a list of fields *)

(** X15: replaying a list of fields only adds to the calls already made,
    at most two for each field of the list, whether the loop returns or
    panics on the way. *)
Theorem addFields_calls_bound `{Platform} {S : Type} `{KeyValue S}
  (fs : list Field) (s : S) (tr : list Call) :
  exists calls : list Call,
    snd (state_of (addFields fs (s, tr))) = tr ++ calls /\
    (List.length calls <= 2 * List.length fs)%nat.
Proof.
  revert s tr. induction fs as [| f fs IH]; intros s tr.
  - exists []. rewrite app_nil_r. split; [reflexivity | cbn; lia].
  - destruct (AddTo_appends_calls f s tr) as [calls1 [Htr Hshape]].
    assert (Hlen : (List.length calls1 <= 2)%nat).
    { destruct Hshape as [-> | [[c [-> _]] | [c [msg [-> _]]]]]; cbn; lia. }
    cbn [addFields]. unfold bind.
    destruct (AddTo f (s, tr)) as [[s1 tr1] [] | [s1 tr1] p]; cbn in Htr; subst tr1.
    + destruct (IH s1 (tr ++ calls1)) as [calls2 [Htr2 Hlen2]].
      exists (calls1 ++ calls2). rewrite Htr2, app_assoc. split; [reflexivity | ].
      rewrite length_app. cbn [List.length]. lia.
    + exists calls1. split; [reflexivity | cbn [List.length]; lia].
Qed.

(** ** The further theorems at concrete fields *)

Section FurtherExamples.

#[local] Existing Instance amd64.

Ltac in_range := cbv; split; [discriminate | reflexivity].

Lemma Recorder_encoderReturns : encoderReturns (S := list Event).
Proof. intros k o log. reflexivity. Defined.

Lemma AddTo_payload_conversions_witness :
  AddTo (H := i386) (mkField "n" intType 4294967301 "" nilValue)
        (([] : list Event), []) =
  Returned ([IntEvent "n" 5], [AddIntCall "n" 5]) tt /\
  to_int (H := i386) 2147483647 = 2147483647.
Proof.
  assert (H32 : in_signed (@intSize i386) 2147483647) by in_range.
  split.
  - exact (proj1 (proj1 (AddTo_payload_conversions (H := i386)
             "n" 4294967301 "" nilValue ([] : list Event) []))).
  - exact (proj2 (proj2 (proj2 (proj1 (AddTo_payload_conversions (H := i386)
             "n" 2147483647 "" nilValue ([] : list Event) [])))) H32).
Defined.

Lemma AddTo_type_assertion_panics_witness :
  AddTo (mkField "who" stringerType 0 "" (otherValue "42")) (([] : list Event), []) =
  Panicked ([], []) (typeAssertionPanic (otherValue "42") "fmt.Stringer") /\
  AddTo (Marshaler "m" None) (([] : list Event), []) =
  Panicked ([], []) (typeAssertionPanic nilValue "zap.LogMarshaler").
Proof.
  split.
  - exact (AddTo_type_assertion_panics
             (mkField "who" stringerType 0 "" (otherValue "42")) [] [] eq_refl).
  - exact (AddTo_type_assertion_panics (Marshaler "m" None) [] [] eq_refl).
Defined.

Lemma AddTo_encoder_nil_or_panic_witness :
  AddTo (Object "payload" (otherValue "{}")) (([] : list Event), []) =
  Returned ([ObjectEvent "payload" (otherValue "{}")],
            [AddObjectCall "payload" (otherValue "{}")]) tt /\
  AddTo (Nest "g" [zeroField]) (([] : list Event), []) =
  Panicked ([OpenEvent "g"], [AddMarshalerCall "g" (multiFields [zeroField])])
           (unknownFieldTypePanic zeroField).
Proof.
  split.
  - exact (proj1 (proj2 (AddTo_encoder_nil_or_panic "payload" 0 ""
                           ([] : list Event) _ []) (otherValue "{}")) eq_refl).
  - exact (proj2 (proj1 (AddTo_encoder_nil_or_panic "g" 0 ""
                           ([] : list Event) _ []) (multiFields [zeroField]))
             _ eq_refl).
Defined.

Lemma Duration_replay_witness :
  AddTo (Duration "elapsed" 1500000000) (([] : list Event), []) =
  Returned ([Int64Event "elapsed" 1500000000],
            [AddInt64Call "elapsed" 1500000000]) tt.
Proof.
  assert (Hd : in_signed 64 1500000000) by in_range.
  exact (proj2 (Duration_replay "elapsed" 1500000000 ([] : list Event) [] Hd)).
Defined.

Lemma Time_replay_witness :
  AddTo (Time Z (fun nanos => if nanos =? 0 then positiveZero else quietNaN)
              "ts" 0)
        (([] : list Event), []) =
  Returned ([Float64Event "ts" positiveZero], [AddFloat64Call "ts" positiveZero]) tt.
Proof.
  assert (Hv : in_unsigned 64 positiveZero) by in_range.
  exact (Time_replay Z (fun nanos => if nanos =? 0 then positiveZero else quietNaN)
           "ts" 0 ([] : list Event) [] Hv).
Defined.

Lemma addFields_scalars_in_order_witness :
  exists log,
    addFields [Bool "ok" true; Skip; Int64 "n" 7; String "s" "x"]
              ((0%nat, []) : nat * list Call) =
    Returned (log, [AddBoolCall "ok" true; AddInt64Call "n" 7; AddStringCall "s" "x"])
             tt.
Proof.
  exact (addFields_scalars_in_order
           [Bool "ok" true; Skip; Int64 "n" 7; String "s" "x"] 0%nat [] eq_refl).
Defined.



Lemma Base64_lossless_witness :
  DecodeText (list_ascii_of_string "AAECAw==") = [0; 1; 2; 3] /\
  "b" = "b" /\ [x00; x01; x02; x03] = [x00; x01; x02; x03].
Proof.
  split.
  - exact (proj1 (Base64_lossless "b" "b" [x00; x01; x02; x03] [x00; x01; x02; x03])).
  - exact (proj2 (Base64_lossless "b" "b" [x00; x01; x02; x03] [x00; x01; x02; x03])
             eq_refl).
Defined.

End FurtherExamples.
